(** * Keyboard controller of axis360 (src/controls/keyboard.js)

    Shallow embedding of [KeyboardController]: the controller state
    ([this.state]), the scope state it reads ([this.scope.state],
    [this.scope.projections.constraints]), the pending JavaScript timers and
    the observable effects (emitted events, [preventDefault], pan commands,
    handler invocations) as an output trace. *)

From Stdlib Require Import ZArith QArith List.
From stdpp Require Import base gmap strings list.

Import ListNotations.
Open Scope Z_scope.

(** ** JavaScript values passed as a key ([use], [isKeySupported]) *)

Inductive jsval :=
| JNum (z : Z)
| JStr (s : string)
| JUndefined
| JOther.

(** ** The [keycode] package (third-party dependency)

    [keycode(name)] for a string argument: the name is lower-cased and
    looked up in the package's [codes] table, then in its [aliases] table;
    failing both, a one-character string gives its character code, anything
    else [undefined]. Strings are byte strings here: lower-casing acts on
    ASCII letters, and the one-character case is a one-byte string. *)

(** The named entries of [codes]. *)
Definition keycode_named : list (string * Z) :=
  [("backspace", 8); ("tab", 9); ("enter", 13); ("shift", 16);
   ("ctrl", 17); ("alt", 18); ("pause/break", 19); ("caps lock", 20);
   ("esc", 27); ("space", 32); ("page up", 33); ("page down", 34);
   ("end", 35); ("home", 36); ("left", 37); ("up", 38); ("right", 39);
   ("down", 40); ("insert", 45); ("delete", 46); ("command", 91);
   ("left command", 91); ("right command", 93); ("numpad *", 106);
   ("numpad +", 107); ("numpad -", 109); ("numpad .", 110);
   ("numpad /", 111); ("num lock", 144); ("scroll lock", 145);
   ("my computer", 182); ("my calculator", 183); (";", 186); ("=", 187);
   (",", 188); ("-", 189); (".", 190); ("/", 191); ("`", 192); ("[", 219);
   ("\", 220); ("]", 221); ("'", 222)]%string.

Definition char_string (n : nat) : string := String (Ascii.ascii_of_nat n) EmptyString.

(** The generated entries of [codes]: lower-case letters ([a] is 65),
    digits ([0] is 48), function keys [f1]..[f12] (112..123) and
    [numpad 0]..[numpad 9] (96..105). *)
Definition keycode_generated : list (string * Z) :=
  map (fun i => (char_string (97 + i), Z.of_nat (97 + i) - 32)) (seq 0 26)
  ++ map (fun i => (char_string (48 + i), Z.of_nat (48 + i))) (seq 0 10)
  ++ [("f1", 112); ("f2", 113); ("f3", 114); ("f4", 115); ("f5", 116);
      ("f6", 117); ("f7", 118); ("f8", 119); ("f9", 120); ("f10", 121);
      ("f11", 122); ("f12", 123)]%string
  ++ map (fun i => (String.append "numpad " (char_string (48 + i)), Z.of_nat (96 + i)))
         (seq 0 10).

Definition keycode_names : list (string * Z) := keycode_named ++ keycode_generated.

(** [aliases]; the symbol aliases are their UTF-8 byte strings. *)
Definition keycode_aliases : list (string * Z) :=
  [("windows", 91); ("⇧", 16); ("⌥", 18); ("⌃", 17); ("⌘", 91);
   ("ctl", 17); ("control", 17); ("option", 18); ("pause", 19);
   ("break", 19); ("caps", 20); ("return", 13); ("escape", 27);
   ("spc", 32); ("spacebar", 32); ("pgup", 33); ("pgdn", 34); ("ins", 45);
   ("del", 46); ("cmd", 91)]%string.

Fixpoint assoc_str (s : string) (l : list (string * Z)) : option Z :=
  match l with
  | [] => None
  | (n, c) :: t => if String.eqb n s then Some c else assoc_str s t
  end.

(** [String.prototype.toLowerCase] on ASCII letters. *)
Definition ascii_lower (a : Ascii.ascii) : Ascii.ascii :=
  let n := Ascii.nat_of_ascii a in
  if (65 <=? n)%nat && (n <=? 90)%nat then Ascii.ascii_of_nat (n + 32) else a.

Fixpoint string_lower (s : string) : string :=
  match s with
  | EmptyString => EmptyString
  | String a t => String (ascii_lower a) (string_lower t)
  end.

Definition keycode (s : string) : option Z :=
  match assoc_str (string_lower s) keycode_names with
  | Some c => Some c
  | None =>
      match assoc_str (string_lower s) keycode_aliases with
      | Some c => Some c
      | None =>
          match s with
          | String a EmptyString => Some (Z.of_nat (Ascii.nat_of_ascii a))
          | _ => None
          end
      end
  end.

Example keycode_samples :
  keycode "up" = Some 38 /\ keycode "Up" = Some 38 /\ keycode "escape" = Some 27
  /\ keycode "a" = Some 65 /\ keycode "A" = Some 65 /\ keycode "f12" = Some 123
  /\ keycode "numpad 3" = Some 99 /\ keycode "~" = Some 126 /\ keycode "nope" = None.
Proof. repeat split; vm_compute; reflexivity. Qed.

(** [key = 'string' == typeof key ? keycode(key) : key] *)
Definition normalize_key (key : jsval) : jsval :=
  match key with
  | JStr s => match keycode s with Some c => JNum c | None => JUndefined end
  | k => k
  end.

(** ** Module-level tables *)

(** [module.exports.keycodes] (lines 81-88), in insertion order. *)
Definition keycodes : list (string * Z) :=
  [("esc", 27); ("space", 32); ("left", 37); ("up", 38); ("right", 39);
   ("down", 40)]%string.

(** [keyname(code)]: first name of [keycodes] whose code is [code], else
    [null]. *)
Fixpoint keyname_in (code : Z) (l : list (string * Z)) : option string :=
  match l with
  | [] => None
  | (n, c) :: t => if Z.eqb code c then Some n else keyname_in code t
  end.

Definition keyname (code : Z) : option string := keyname_in code keycodes.

(** [this.state.keynames] (line 155). *)
Definition keynames : list string := ["up"; "down"; "left"; "right"]%string.

(** [state.supported] and [state.keycodes]: both [keynames.map(keycode)]
    ([undefined] entries as [None]). *)
Definition supported : list (option Z) := map keycode keynames.
Definition state_keycodes : list (option Z) := map keycode keynames.

(** ** Handlers and effects *)

(** The four handlers installed by the constructor and handlers registered
    by a caller, identified by a number. *)
Inductive handler :=
| HUp | HDown | HLeft | HRight
| HCustom (id : nat).

Record delta := mkDelta { dx : Q; dy : Q }.

Inductive effect :=
| Emit (ev : string) (which : Z)          (* this.scope.emit(ev, e) *)
| PreventDefault (which : Z)              (* e.preventDefault() *)
| Pan (d : delta)                         (* this.pan(d) *)
| Invoke (id : nat) (name : option string) (code : Z)
                                          (* handle.call(this, {name, code}) *)
| BaseUpdate                              (* AxisController.prototype.update *)
| BaseReset.                              (* AxisController.prototype.reset *)

(** The body of each handler, called with [this.state.panSpeed] = [ps]
    (lines 224-238); a caller's handler is observed by its invocation. *)
Definition run_handler (ps : Q) (h : handler) (name : option string) (code : Z)
  : list effect :=
  match h with
  | HUp => [Pan (mkDelta 0 (- ps / 2)%Q)]
  | HDown => [Pan (mkDelta 0 (ps / 2)%Q)]
  | HLeft => [Pan (mkDelta (- ps * 2)%Q 0)]
  | HRight => [Pan (mkDelta (ps * 2)%Q 0)]
  | HCustom i => [Invoke i name code]
  end.

(** ** State *)

(** [this.state] of the controller (the fields the keyboard code uses). *)
Record ctrl := mkCtrl {
  isEnabled : bool;
  handlers : gmap Z (list handler);
  keystate : gmap Z bool;
  panSpeed : Q;
  forceUpdate : bool;
  keyupTimeout : option nat
}.

(** The scope fields read by the controller; [constraint_keys] is
    [constraints.keys] when [constraints && constraints.keys] holds. *)
Record scope := mkScope {
  forceFocus : bool;
  isFocused : bool;
  controllerUpdateTimeout : Z;
  constraint_keys : option (gmap Z bool)
}.

(** The whole world: controller, scope, pending timers (id and delay; all
    timers here are the release timers of [onkeyup]), the next timer id and
    the output trace. *)
Record world := mkWorld {
  w_ctrl : ctrl;
  w_scope : scope;
  w_timers : list (nat * Z);
  w_next : nat;
  w_out : list effect
}.

Definition set_keystate (c : ctrl) (ks : gmap Z bool) : ctrl :=
  mkCtrl c.(isEnabled) c.(handlers) ks c.(panSpeed) c.(forceUpdate) c.(keyupTimeout).
Definition set_handlers (c : ctrl) (hs : gmap Z (list handler)) : ctrl :=
  mkCtrl c.(isEnabled) hs c.(keystate) c.(panSpeed) c.(forceUpdate) c.(keyupTimeout).
Definition set_forceUpdate (c : ctrl) (b : bool) : ctrl :=
  mkCtrl c.(isEnabled) c.(handlers) c.(keystate) c.(panSpeed) b c.(keyupTimeout).
Definition set_keyupTimeout (c : ctrl) (t : option nat) : ctrl :=
  mkCtrl c.(isEnabled) c.(handlers) c.(keystate) c.(panSpeed) c.(forceUpdate) t.
Definition set_isEnabled (c : ctrl) (b : bool) : ctrl :=
  mkCtrl b c.(handlers) c.(keystate) c.(panSpeed) c.(forceUpdate) c.(keyupTimeout).

Definition with_ctrl (w : world) (c : ctrl) : world :=
  mkWorld c w.(w_scope) w.(w_timers) w.(w_next) w.(w_out).
Definition with_scope (w : world) (s : scope) : world :=
  mkWorld w.(w_ctrl) s w.(w_timers) w.(w_next) w.(w_out).
Definition with_timers (w : world) (ts : list (nat * Z)) : world :=
  mkWorld w.(w_ctrl) w.(w_scope) ts w.(w_next) w.(w_out).
Definition push_out (w : world) (es : list effect) : world :=
  mkWorld w.(w_ctrl) w.(w_scope) w.(w_timers) w.(w_next) (w.(w_out) ++ es).

(** [this.scope.emit(ev, e)] *)
Definition emit (w : world) (ev : string) (which : Z) : world :=
  push_out w [Emit ev which].

(** ** Timers *)

(** [clearTimeout(id)]: [undefined] or an id no longer pending is a no-op. *)
Definition clearTimeout (w : world) (id : option nat) : world :=
  match id with
  | None => w
  | Some i => with_timers w (filter (fun t => negb (Nat.eqb t.1 i)) w.(w_timers))
  end.

(** [setTimeout(cb, d)]: a fresh id. *)
Definition setTimeout (w : world) (d : Z) : world * nat :=
  (mkWorld w.(w_ctrl) w.(w_scope) (w.(w_timers) ++ [(w.(w_next), d)])
     (S w.(w_next)) w.(w_out), w.(w_next)).

Definition pending (w : world) (i : nat) : bool :=
  existsb (fun t => Nat.eqb t.1 i) w.(w_timers).

(** A pending release timer fires: it leaves the queue and its callback
    [this.state.forceUpdate = false] runs (lines 408-410). *)
Definition fire (w : world) (i : nat) : world :=
  let w1 := with_timers w (filter (fun t => negb (Nat.eqb t.1 i)) w.(w_timers)) in
  with_ctrl w1 (set_forceUpdate w1.(w_ctrl) false).

(** ** Operations *)

(** [this.scope.state.forceFocus || this.scope.state.isFocused] *)
Definition focused (w : world) : bool :=
  w.(w_scope).(forceFocus) || w.(w_scope).(isFocused).

Definition is_constrained (w : world) (k : Z) : bool :=
  match w.(w_scope).(constraint_keys) with
  | Some m => match m !! k with Some true => true | _ => false end
  | None => false
  end.

Definition in_supported (k : Z) : bool :=
  existsb (fun o => match o with Some c => Z.eqb c k | None => false end) supported.

(** [isKeySupported(key)] (lines 325-348). *)
Definition isKeySupported (w : world) (key : jsval) : bool :=
  match normalize_key key with
  | JNum k =>
      if is_constrained w k then false
      else if in_supported k then true else false
  | _ => false
  end.

(** [onkeydown(e)] with [e.which = which] (lines 358-391). *)
Definition onkeydown (w : world) (which : Z) : world :=
  let w1 := clearTimeout w w.(w_ctrl).(keyupTimeout) in
  if negb w1.(w_ctrl).(isEnabled) then w1
  else if focused w1 then
    if negb (isKeySupported w1 (JNum which)) then w1
    else
      let w2 := with_ctrl w1 (set_keystate w1.(w_ctrl)
                                (<[which := true]> w1.(w_ctrl).(keystate))) in
      let w3 := push_out w2 [PreventDefault which] in
      emit w3 "keydown" which
  else emit w1 "keydown" which.

(** [onkeyup(e)] with [e.which = which] (lines 401-412). *)
Definition onkeyup (w : world) (which : Z) : world :=
  let w1 := with_ctrl w (set_keystate w.(w_ctrl)
                           (<[which := false]> w.(w_ctrl).(keystate))) in
  if focused w1 then
    let w2 := with_ctrl w1 (set_forceUpdate w1.(w_ctrl) true) in
    let w3 := clearTimeout w2 w2.(w_ctrl).(keyupTimeout) in
    let '(w4, id) := setTimeout w3 w3.(w_scope).(controllerUpdateTimeout) in
    with_ctrl w4 (set_keyupTimeout w4.(w_ctrl) (Some id))
  else w1.

(** ** Throwing operations *)

(** A call either returns, or throws with the world as it is at the throw. *)
Inductive result :=
| Ret (w : world)
| Throw (err : string) (w : world).

Definition result_world (r : result) : world :=
  match r with Ret w => w | Throw _ w => w end.

Definition bind_result (r : result) (k : world -> result) : result :=
  match r with Ret w => k w | Throw e w => Throw e w end.

(** [use(key, fn)] (lines 302-311). *)
Definition use (w : world) (key : jsval) (fn : handler) : result :=
  match normalize_key key with
  | JNum k =>
      let hs := w.(w_ctrl).(handlers) in
      let cur := match hs !! k with Some l => l | None => [] end in
      Ret (with_ctrl w (set_handlers w.(w_ctrl) (<[k := cur ++ [fn]]> hs)))
  | _ => Throw "TypeError" w
  end.

(** [state.isKeydown] (lines 200-204). *)
Definition isKeydown (ks : gmap Z bool) : bool :=
  existsb (fun kv => Bool.eqb true kv.2) (map_to_list ks).

(** [if (this.state.keystate[code])] *)
Definition held (w : world) (code : Z) : bool :=
  match w.(w_ctrl).(keystate) !! code with Some true => true | _ => false end.

(** Inner loop of [update]: [handlers[code].forEach(...)] (lines 279-284). *)
Fixpoint run_handlers (w : world) (code : Z) (hs : list handler) : world :=
  match hs with
  | [] => w
  | h :: t =>
      let name := keyname code in
      let w' := if held w code
                then push_out w (run_handler w.(w_ctrl).(panSpeed) h name code)
                else w in
      run_handlers w' code t
  end.

(** Outer loop of [update]: [this.state.keycodes.forEach(...)]; a code with
    no handler list makes [handlers[code].forEach] throw. *)
Fixpoint run_codes (w : world) (codes : list (option Z)) : result :=
  match codes with
  | [] => Ret w
  | None :: _ => Throw "TypeError" w
  | Some c :: rest =>
      match w.(w_ctrl).(handlers) !! c with
      | None => Throw "TypeError" w
      | Some hs => run_codes (run_handlers w c hs) rest
      end
  end.

(** Modelled from the spec: [AxisController.prototype.update]
    (controls/controller.js, not part of the sources) applies the camera
    transform accumulated by the pan commands; it is recorded as the effect
    [BaseUpdate] and changes no keyboard state. *)
Definition base_update (w : world) : world := push_out w [BaseUpdate].

(** [update()] (lines 268-288). *)
Definition update (w : world) : result :=
  if Bool.eqb false (isKeydown w.(w_ctrl).(keystate)) then Ret w
  else bind_result (run_codes w state_keycodes) (fun w' => Ret (base_update w')).

(** Modelled from the spec: [AxisController.prototype.reset]
    (controls/controller.js, not part of the sources) resets the camera
    state; it is recorded as the effect [BaseReset]. *)
Definition base_reset (w : world) : world := push_out w [BaseReset].

(** [reset()] (lines 250-257). *)
Definition reset (w : world) : world :=
  let w1 := clearTimeout w w.(w_ctrl).(keyupTimeout) in
  let w2 := base_reset w1 in
  with_ctrl w2 (set_keystate w2.(w_ctrl) (fmap (fun _ => false) w2.(w_ctrl).(keystate))).

(** The four [use] calls at the end of the constructor (lines 224-238). *)
Definition install_defaults (w : world) : result :=
  bind_result (use w (JStr "up") HUp) (fun w =>
  bind_result (use w (JStr "down") HDown) (fun w =>
  bind_result (use w (JStr "left") HLeft) (fun w =>
  use w (JStr "right") HRight))).

(** The constructor (lines 118-239) on a scope [sc]: [isEnabled] and
    [forceUpdate] as left by the base constructor are [en] and [fu];
    [panSpeed] is [DEFAULT_KEY_PAN_SPEED] = [ps]. *)
Definition KeyboardController (sc : scope) (en fu : bool) (ps : Q) : result :=
  let w0 := mkWorld (mkCtrl en ∅ ∅ ps fu None) sc [] 0 [] in
  install_defaults (reset w0).

(** ** Events the controller receives *)

Inductive label :=
| LKeyDown (which : Z)
| LKeyUp (which : Z)
| LFire (id : nat)
| LUse (key : jsval) (fn : handler)
| LUpdate
| LReset
| LScope (sc : scope)          (* the scope changes focus, timeout, constraints *)
| LEnable (b : bool).          (* [state.isEnabled] set by the caller *)

Inductive step : world -> label -> world -> Prop :=
| StKeyDown w which : step w (LKeyDown which) (onkeydown w which)
| StKeyUp w which : step w (LKeyUp which) (onkeyup w which)
| StFire w i : pending w i = true -> step w (LFire i) (fire w i)
| StUse w k f : step w (LUse k f) (result_world (use w k f))
| StUpdate w : step w LUpdate (result_world (update w))
| StReset w : step w LReset (reset w)
| StScope w sc : step w (LScope sc) (with_scope w sc)
| StEnable w b : step w (LEnable b) (with_ctrl w (set_isEnabled w.(w_ctrl) b)).

(** Any sequence of events. *)
Inductive steps : world -> world -> Prop :=
| steps_refl w : steps w w
| steps_cons w l w' w'' : step w l w' -> steps w' w'' -> steps w w''.

(** The events that neither are a key-up while focused nor [reset()]. *)
Definition quiet (w : world) (l : label) : Prop :=
  match l with
  | LKeyUp _ => focused w = false
  | LReset => False
  | _ => True
  end.

Inductive quiet_steps : world -> world -> Prop :=
| quiet_refl w : quiet_steps w w
| quiet_cons w l w' w'' :
    quiet w l -> step w l w' -> quiet_steps w' w'' -> quiet_steps w w''.

(** At most one release timer is pending, and it is [keyupTimeout]. *)
Definition timer_inv (w : world) : Prop :=
  w.(w_timers) = [] \/
  exists i d, w.(w_timers) = [(i, d)] /\ w.(w_ctrl).(keyupTimeout) = Some i.

(** ** Concrete worlds *)

Definition scope0 : scope := mkScope false true 300 None.

Definition world0 : world :=
  match KeyboardController scope0 true false 8 with
  | Ret w => w | Throw _ w => w
  end.

Example keyname_38 : keyname 38 = Some "up"%string.
Proof. reflexivity. Qed.

Example supported_values : supported = [Some 38; Some 40; Some 37; Some 39].
Proof. reflexivity. Qed.

Example world0_handlers :
  world0.(w_ctrl).(handlers) = {[38 := [HUp]; 40 := [HDown]; 37 := [HLeft]; 39 := [HRight]]}.
Proof. vm_compute. reflexivity. Qed.

Definition world_disabled : world :=
  with_ctrl world0 (set_isEnabled world0.(w_ctrl) false).

(** ** Frame lemmas *)

Lemma clearTimeout_ctrl w id : (clearTimeout w id).(w_ctrl) = w.(w_ctrl).
Proof. destruct id; reflexivity. Qed.

Lemma clearTimeout_scope w id : (clearTimeout w id).(w_scope) = w.(w_scope).
Proof. destruct id; reflexivity. Qed.

Lemma clearTimeout_out w id : (clearTimeout w id).(w_out) = w.(w_out).
Proof. destruct id; reflexivity. Qed.

Lemma isKeySupported_num w which :
  isKeySupported w (JNum which) = in_supported which && negb (is_constrained w which).
Proof.
  unfold isKeySupported, normalize_key.
  destruct (is_constrained w which), (in_supported which); reflexivity.
Qed.

Lemma isKeySupported_clearTimeout w id k :
  isKeySupported (clearTimeout w id) k = isKeySupported w k.
Proof. destruct id; reflexivity. Qed.

Lemma focused_clearTimeout w id : focused (clearTimeout w id) = focused w.
Proof. destruct id; reflexivity. Qed.

Ltac keydown_cases w which :=
  unfold onkeydown;
  rewrite ?focused_clearTimeout, ?isKeySupported_clearTimeout,
    ?clearTimeout_ctrl, ?isKeySupported_num;
  destruct (isEnabled (w_ctrl w)), (focused w), (in_supported which),
    (is_constrained w which); cbn;
  rewrite ?clearTimeout_ctrl, ?clearTimeout_out; try reflexivity.

(** ** C1 *)

(** C1: [onkeydown] sets [keystate[code] = true] exactly when the
    controller is enabled, the scene is focused, the code is in the
    supported set and it is not constrained; otherwise the key state is left
    unchanged. In particular a code outside the supported set is never set. *)
Theorem onkeydown_keystate (w : world) (which : Z) :
  (onkeydown w which).(w_ctrl).(keystate) =
    (if isEnabled w.(w_ctrl) && focused w && in_supported which
          && negb (is_constrained w which)
     then <[which := true]> w.(w_ctrl).(keystate)
     else w.(w_ctrl).(keystate))
  /\ (in_supported which = false ->
      (onkeydown w which).(w_ctrl).(keystate) = w.(w_ctrl).(keystate)).
Proof.
  split.
  - keydown_cases w which.
  - intros Hs. keydown_cases w which; discriminate.
Qed.

(** ** C5 *)

(** C5: [onkeyup] writes [keystate[code] = false] whatever the focus,
    support, constraint or earlier key-down: afterwards the key is not held. *)
Theorem onkeyup_keystate (w : world) (which : Z) :
  (onkeyup w which).(w_ctrl).(keystate) = <[which := false]> w.(w_ctrl).(keystate)
  /\ (onkeyup w which).(w_ctrl).(keystate) !! which = Some false.
Proof.
  assert (Hks : (onkeyup w which).(w_ctrl).(keystate)
                = <[which := false]> w.(w_ctrl).(keystate)).
  { unfold onkeyup. cbn. destruct (focused _); cbn; [|reflexivity].
    destruct (keyupTimeout (w_ctrl w)); reflexivity. }
  split; [exact Hks|]. rewrite Hks. apply lookup_insert_eq.
Qed.

(** ** C6 *)

(** C6: when no key is held, [update] returns at once: no handler runs, no
    pan is issued, the world is unchanged. *)
Theorem update_idle (w : world) (Hidle : isKeydown w.(w_ctrl).(keystate) = false) :
  update w = Ret w.
Proof. unfold update. rewrite Hidle. reflexivity. Qed.

Lemma update_idle_witness :
  isKeydown world0.(w_ctrl).(keystate) = false /\ update world0 = Ret world0.
Proof.
  assert (H : isKeydown world0.(w_ctrl).(keystate) = false) by (vm_compute; reflexivity).
  split; [exact H | apply (update_idle world0 H)].
Defined.

(** ** C3 *)

(** C3 (counterexample): a disabled controller emits no "keydown" for a
    key-down, and a key-up emits no "keyup" at all. *)
Lemma emit_counterexample :
  ~ In (Emit "keydown" 38) (onkeydown world_disabled 38).(w_out)
  /\ ~ In (Emit "keyup" 38) (onkeyup world0 38).(w_out).
Proof.
  assert (H1 : (onkeydown world_disabled 38).(w_out) = [BaseReset]) by (vm_compute; reflexivity).
  assert (H3 : (onkeyup world0 38).(w_out) = [BaseReset]) by (vm_compute; reflexivity).
  rewrite H1, H3. split; intros [H|[]]; discriminate.
Qed.

(** C3 (amended): [onkeydown] appends to the output exactly
    [preventDefault] and a "keydown" emit when the controller is enabled,
    focused and the key supported and unconstrained; only the "keydown" emit
    when it is enabled and unfocused; nothing when it is disabled, or focused
    and the key is unsupported or constrained. *)
Theorem onkeydown_emits (w : world) (which : Z) :
  (onkeydown w which).(w_out) =
    w.(w_out) ++
    (if isEnabled w.(w_ctrl) then
       if focused w then
         if in_supported which && negb (is_constrained w which)
         then [PreventDefault which; Emit "keydown" which]
         else []
       else [Emit "keydown" which]
     else []).
Proof.
  keydown_cases w which; rewrite ?app_nil_r; try reflexivity;
  rewrite <- app_assoc; reflexivity.
Qed.

(** ** C8 *)

(** C8: [use(key, fn)] throws a TypeError exactly when the key, a string
    resolved through [keycode], is not a number; a throw leaves the world as
    it was; otherwise [fn] is appended to the list of the resolved code,
    created empty when absent, and nothing else changes. *)
Theorem use_spec (w : world) (key : jsval) (fn : handler) :
  ((exists e w', use w key fn = Throw e w') <-> ~ exists c, normalize_key key = JNum c)
  /\ (forall e w', use w key fn = Throw e w' -> e = "TypeError"%string /\ w' = w)
  /\ (forall c, normalize_key key = JNum c ->
      use w key fn =
        Ret (with_ctrl w (set_handlers w.(w_ctrl)
               (<[c := default [] (w.(w_ctrl).(handlers) !! c) ++ [fn]]>
                  w.(w_ctrl).(handlers))))).
Proof.
  unfold use.
  destruct (normalize_key key) as [z| | |] eqn:Hk; repeat split; intros;
    repeat match goal with H : exists _, _ |- _ => destruct H end;
    try discriminate; try congruence; eauto;
    try (exfalso; match goal with H : ~ _ |- _ => apply H; eauto end).
  all: try (intros [? ?]; discriminate).
  match goal with H : JNum _ = JNum _ |- _ => injection H as <- end.
  reflexivity.
Qed.

(** ** C9 *)

(** C9 (counterexample): the exported [keycodes] table has six entries, not
    four; it also names "esc". *)
Lemma keycodes_counterexample :
  length keycodes <> 4%nat /\ In ("esc"%string, 27) keycodes.
Proof. split; [discriminate | cbn; auto]. Qed.

(** C9 (amended): the exported [keycodes] table lists esc 27, space 32,
    left 37, up 38, right 39 and down 40; its entries for the four key names
    agree with the supported set (up 38, down 40, left 37, right 39), while
    esc and space are not supported. *)
Theorem keycodes_table :
  keycodes = [("esc", 27); ("space", 32); ("left", 37); ("up", 38);
              ("right", 39); ("down", 40)]%string
  /\ supported = [Some 38; Some 40; Some 37; Some 39]
  /\ map (fun n => assoc_str n keycodes) keynames = supported
  /\ in_supported 27 = false /\ in_supported 32 = false.
Proof. repeat split; reflexivity. Qed.

(** ** C2 *)

Definition default_handlers : gmap Z (list handler) :=
  {[38 := [HUp]; 40 := [HDown]; 37 := [HLeft]; 39 := [HRight]]}.

Lemma KeyboardController_handlers sc en fu ps :
  exists w0, KeyboardController sc en fu ps = Ret w0
             /\ w0.(w_ctrl).(handlers) = default_handlers.
Proof. eexists. split; [reflexivity | vm_compute; reflexivity]. Qed.

Lemma isKeydown_singleton c : isKeydown {[c := true]} = true.
Proof. unfold isKeydown. rewrite map_to_list_singleton. reflexivity. Qed.

Lemma isKeydown_held ks c : ks !! c = Some true -> isKeydown ks = true.
Proof.
  intros Hc. unfold isKeydown. apply existsb_exists.
  exists (c, true). split; [|reflexivity].
  apply list_elem_of_In. by apply elem_of_map_to_list.
Qed.

(** ** The dispatch loop of [update] *)

(** The effects of the handlers of [c] on a tick. *)
Definition code_effects (w : world) (c : Z) : list effect :=
  match w.(w_ctrl).(handlers) !! c with
  | Some hs =>
      if held w c
      then concat (map (fun h => run_handler w.(w_ctrl).(panSpeed) h (keyname c) c) hs)
      else []
  | None => []
  end.

Lemma push_out_nil w : push_out w [] = w.
Proof. destruct w; unfold push_out; cbn. by rewrite app_nil_r. Qed.

Lemma push_out_app w a b : push_out (push_out w a) b = push_out w (a ++ b).
Proof. unfold push_out; cbn. by rewrite app_assoc. Qed.

Lemma held_push_out w es c : held (push_out w es) c = held w c.
Proof. reflexivity. Qed.

Lemma code_effects_push_out w es c : code_effects (push_out w es) c = code_effects w c.
Proof. reflexivity. Qed.

Lemma run_handlers_spec w c hs :
  run_handlers w c hs =
  push_out w (if held w c
              then concat (map (fun h => run_handler w.(w_ctrl).(panSpeed) h (keyname c) c) hs)
              else []).
Proof.
  revert w. induction hs as [|h t IH]; intros w; cbn.
  - destruct (held w c); by rewrite push_out_nil.
  - rewrite IH. destruct (held w c) eqn:Hh.
    + rewrite held_push_out, Hh, push_out_app. reflexivity.
    + rewrite Hh, push_out_nil. reflexivity.
Qed.

Lemma run_codes_spec w codes :
  Forall (fun o => exists c, o = Some c /\ is_Some (w.(w_ctrl).(handlers) !! c)) codes ->
  run_codes w codes =
  Ret (push_out w (concat (map (fun o => match o with
                                         | Some c => code_effects w c
                                         | None => [] end) codes))).
Proof.
  revert w. induction codes as [|o t IH]; intros w Hall; cbn.
  - by rewrite push_out_nil.
  - inversion Hall as [|? ? (c & -> & [hs Hhs]) Ht]; subst.
    rewrite Hhs, run_handlers_spec, IH.
    + rewrite push_out_app.
      assert (Ec : code_effects w c =
                   if held w c
                   then concat (map (fun h => run_handler w.(w_ctrl).(panSpeed) h
                                                (keyname c) c) hs)
                   else []) by (unfold code_effects; rewrite Hhs; reflexivity).
      rewrite Ec. reflexivity.
    + clear -Ht. induction Ht as [|? ? (c' & -> & Hc') ? IHt]; constructor; eauto.
Qed.

Lemma state_keycodes_values : state_keycodes = [Some 38; Some 40; Some 37; Some 39].
Proof. reflexivity. Qed.

Lemma update_spec w :
  isKeydown w.(w_ctrl).(keystate) = true ->
  (forall c, In (Some c) state_keycodes -> is_Some (w.(w_ctrl).(handlers) !! c)) ->
  update w = Ret (push_out w (concat (map (code_effects w) [38; 40; 37; 39])
                              ++ [BaseUpdate])).
Proof.
  intros Hk Hh. unfold update. rewrite Hk. cbn [Bool.eqb].
  rewrite run_codes_spec.
  - cbn. unfold base_update. rewrite push_out_app. reflexivity.
  - rewrite state_keycodes_values in Hh |- *.
    repeat constructor; eexists; (split; [reflexivity|]); apply Hh; cbn; tauto.
Qed.

Lemma update_default_output (w : world) :
  w.(w_ctrl).(handlers) = default_handlers ->
  isKeydown w.(w_ctrl).(keystate) = true ->
  update w = Ret (push_out w (
    (if held w 38 then [Pan (mkDelta 0 (- w.(w_ctrl).(panSpeed) / 2))] else []) ++
    (if held w 40 then [Pan (mkDelta 0 (w.(w_ctrl).(panSpeed) / 2))] else []) ++
    (if held w 37 then [Pan (mkDelta (- w.(w_ctrl).(panSpeed) * 2) 0)] else []) ++
    (if held w 39 then [Pan (mkDelta (w.(w_ctrl).(panSpeed) * 2) 0)] else []) ++
    [BaseUpdate])).
Proof.
  intros Hh Hk. rewrite update_spec; [|exact Hk|].
  - unfold code_effects. rewrite Hh. cbn [concat map]. rewrite <- !app_assoc.
    destruct (held w 38), (held w 40), (held w 37), (held w 39); reflexivity.
  - rewrite Hh, state_keycodes_values. intros c' Hc'.
    cbn in Hc'. destruct Hc' as [E|[E|[E|[E|[]]]]]; injection E as <-;
    vm_compute; eauto.
Qed.

(** C2: the four bindings installed by the constructor pan, on every tick
    where a key is held (whatever else the key state records), once for each
    held direction: up (0, -panSpeed/2), down (0, panSpeed/2), left
    (-panSpeed*2, 0) and right (panSpeed*2, 0), in that order, and nothing
    else before the base update: half the pan speed along y, double along x,
    up and left negative. *)
Theorem default_bindings_pan (sc : scope) (en fu : bool) (ps : Q) :
  exists w0, KeyboardController sc en fu ps = Ret w0 /\
  forall w, w.(w_ctrl).(handlers) = w0.(w_ctrl).(handlers) ->
  isKeydown w.(w_ctrl).(keystate) = true ->
  let s := w.(w_ctrl).(panSpeed) in
  update w = Ret (push_out w (
    (if held w 38 then [Pan (mkDelta 0 (- s / 2))] else []) ++
    (if held w 40 then [Pan (mkDelta 0 (s / 2))] else []) ++
    (if held w 37 then [Pan (mkDelta (- s * 2) 0)] else []) ++
    (if held w 39 then [Pan (mkDelta (s * 2) 0)] else []) ++ [BaseUpdate]))
  /\ (- s / 2 == - ((1 # 2) * s) /\ s / 2 == (1 # 2) * s
      /\ - s * 2 == - (2 * s) /\ s * 2 == 2 * s)%Q.
Proof.
  destruct (KeyboardController_handlers sc en fu ps) as (w0 & Hw0 & Hh).
  exists w0. split; [exact Hw0|].
  intros w Hw Hk s. rewrite Hh in Hw.
  split; [exact (update_default_output w Hw Hk)|].
  unfold s; repeat split; field.
Qed.

Definition world_up_down : world :=
  onkeydown (onkeyup (onkeydown world0 40) 40) 38.

Lemma default_bindings_pan_witness :
  world_up_down.(w_ctrl).(keystate) = {[38 := true; 40 := false]} /\
  let s := world_up_down.(w_ctrl).(panSpeed) in
  update world_up_down = Ret (push_out world_up_down (
    (if held world_up_down 38 then [Pan (mkDelta 0 (- s / 2))] else []) ++
    (if held world_up_down 40 then [Pan (mkDelta 0 (s / 2))] else []) ++
    (if held world_up_down 37 then [Pan (mkDelta (- s * 2) 0)] else []) ++
    (if held world_up_down 39 then [Pan (mkDelta (s * 2) 0)] else []) ++ [BaseUpdate])).
Proof.
  split; [vm_compute; reflexivity|].
  destruct (default_bindings_pan scope0 true false 8) as (w0 & Hw0 & H).
  assert (E : world0 = w0) by (unfold world0; rewrite Hw0; reflexivity).
  assert (Hh : world_up_down.(w_ctrl).(handlers) = w0.(w_ctrl).(handlers)).
  { rewrite <- E. vm_compute. reflexivity. }
  assert (Hk : isKeydown world_up_down.(w_ctrl).(keystate) = true)
    by (vm_compute; reflexivity).
  exact (proj1 (H world_up_down Hh Hk)).
Defined.

(** ** C7 *)

Lemma use_resolved w k c fn :
  normalize_key k = JNum c ->
  use w k fn = Ret (with_ctrl w (set_handlers w.(w_ctrl)
     (<[c := default [] (w.(w_ctrl).(handlers) !! c) ++ [fn]]> w.(w_ctrl).(handlers)))).
Proof. intros H. unfold use. rewrite H. reflexivity. Qed.

Lemma supported_name_split n c :
  In n keynames -> keycode n = Some c ->
  keyname c = Some n /\
  exists pre post, [38; 40; 37; 39] = pre ++ c :: post.
Proof.
  intros Hn Hc. cbn in Hn.
  destruct Hn as [<-|[<-|[<-|[<-|[]]]]]; vm_compute in Hc; injection Hc as <-;
    (split; [reflexivity|]).
  - exists [], [40; 37; 39]. reflexivity.
  - exists [38], [37; 39]. reflexivity.
  - exists [38; 40], [39]. reflexivity.
  - exists [38; 40; 37], []. reflexivity.
Qed.

(** C7: for any supported key name [n] (up, down, left or right) with code
    [c], two handlers registered with [use(n, h1)] and [use(n, h2)] are
    appended after the handlers already bound to [c]; then on every tick
    where the registry is this one and [c] is held, [update] runs the
    handlers of [c] one after the other in registration order, [h1] then
    [h2] last, between the handlers of the codes dispatched before [c] and
    those dispatched after it. *)
Theorem use_twice_dispatch (w : world) (n : string) (c : Z)
  (hs : list handler) (h1 h2 : handler)
  (Hn : In n keynames) (Hc : keycode n = Some c)
  (Hhs : w.(w_ctrl).(handlers) !! c = Some hs)
  (Hall : forall c', In (Some c') state_keycodes -> is_Some (w.(w_ctrl).(handlers) !! c')) :
  exists w2,
    bind_result (use w (JStr n) h1) (fun w1 => use w1 (JStr n) h2) = Ret w2
    /\ w2.(w_ctrl).(handlers) = <[c := hs ++ [h1; h2]]> w.(w_ctrl).(handlers)
    /\ forall w', w'.(w_ctrl).(handlers) = w2.(w_ctrl).(handlers) ->
       w'.(w_ctrl).(keystate) !! c = Some true ->
       exists pre post, [38; 40; 37; 39] = pre ++ c :: post /\
         update w' =
         Ret (push_out w'
           (concat (map (code_effects w') pre)
            ++ concat (map (fun h => run_handler w'.(w_ctrl).(panSpeed) h (Some n) c)
                           (hs ++ [h1; h2]))
            ++ concat (map (code_effects w') post) ++ [BaseUpdate])).
Proof.
  assert (Hnk : normalize_key (JStr n) = JNum c) by (cbn; rewrite Hc; reflexivity).
  rewrite (use_resolved w _ _ h1 Hnk). cbn [bind_result].
  rewrite (use_resolved _ _ _ h2 Hnk).
  eexists. split; [reflexivity|].
  cbn [with_ctrl set_handlers w_ctrl handlers].
  rewrite Hhs, lookup_insert_eq, insert_insert_eq.
  assert (E : default [] (Some (default [] (Some hs) ++ [h1])) ++ [h2] = hs ++ [h1; h2])
    by (cbn; rewrite <- app_assoc; reflexivity).
  rewrite E. split; [reflexivity|].
  intros w' Hw' Hk.
  destruct (supported_name_split n c Hn Hc) as (Hkn & pre & post & Hsp).
  assert (Ec : code_effects w' c =
    concat (map (fun h => run_handler w'.(w_ctrl).(panSpeed) h (Some n) c) (hs ++ [h1; h2])))
    by (unfold code_effects, held; rewrite Hw', Hk, lookup_insert_eq, Hkn; reflexivity).
  exists pre, post. split; [exact Hsp|].
  rewrite update_spec.
  - rewrite Hsp, map_app, concat_app. cbn [map concat]. rewrite Ec, <- !app_assoc.
    reflexivity.
  - by apply (isKeydown_held _ c).
  - intros c' Hc'. rewrite Hw'. destruct (decide (c' = c)) as [->|Hne].
    + rewrite lookup_insert_eq. eauto.
    + rewrite lookup_insert_ne by congruence. by apply Hall.
Qed.

Lemma use_twice_dispatch_witness :
  In "down"%string keynames /\ keycode "down" = Some 40 /\
  world0.(w_ctrl).(handlers) !! 40 = Some [HDown] /\
  exists w2,
    bind_result (use world0 (JStr "down") (HCustom 1))
                (fun w1 => use w1 (JStr "down") (HCustom 2)) = Ret w2
    /\ w2.(w_ctrl).(handlers) = <[40 := [HDown] ++ [HCustom 1; HCustom 2]]> world0.(w_ctrl).(handlers)
    /\ forall w', w'.(w_ctrl).(handlers) = w2.(w_ctrl).(handlers) ->
       w'.(w_ctrl).(keystate) !! 40 = Some true ->
       exists pre post, [38; 40; 37; 39] = pre ++ 40 :: post /\
         update w' =
         Ret (push_out w'
           (concat (map (code_effects w') pre)
            ++ concat (map (fun h => run_handler w'.(w_ctrl).(panSpeed) h (Some "down"%string) 40)
                           ([HDown] ++ [HCustom 1; HCustom 2]))
            ++ concat (map (code_effects w') post) ++ [BaseUpdate])).
Proof.
  assert (Hn : In "down"%string keynames) by (cbn; tauto).
  assert (Hc : keycode "down" = Some 40) by (vm_compute; reflexivity).
  assert (H40 : world0.(w_ctrl).(handlers) !! 40 = Some [HDown]) by (vm_compute; reflexivity).
  split; [exact Hn|]. split; [exact Hc|]. split; [exact H40|].
  apply (use_twice_dispatch world0 "down" 40 [HDown] (HCustom 1) (HCustom 2) Hn Hc H40).
  rewrite state_keycodes_values. intros c Hc'.
  cbn in Hc'. destruct Hc' as [E|[E|[E|[E|[]]]]]; injection E as <-;
  vm_compute; eauto.
Defined.

(** ** Timers: frame lemmas and the one-timer invariant *)

Lemma onkeydown_frame w which :
  (onkeydown w which).(w_timers) = (clearTimeout w w.(w_ctrl).(keyupTimeout)).(w_timers)
  /\ (onkeydown w which).(w_ctrl).(forceUpdate) = w.(w_ctrl).(forceUpdate)
  /\ (onkeydown w which).(w_ctrl).(keyupTimeout) = w.(w_ctrl).(keyupTimeout)
  /\ (onkeydown w which).(w_ctrl).(handlers) = w.(w_ctrl).(handlers).
Proof.
  unfold onkeydown.
  rewrite ?focused_clearTimeout, ?isKeySupported_clearTimeout, ?clearTimeout_ctrl.
  destruct (isEnabled (w_ctrl w)), (focused w), (isKeySupported w (JNum which));
    cbn; rewrite ?clearTimeout_ctrl; repeat split.
Qed.

Lemma run_handlers_frame w c hs :
  (run_handlers w c hs).(w_ctrl) = w.(w_ctrl)
  /\ (run_handlers w c hs).(w_timers) = w.(w_timers).
Proof. rewrite run_handlers_spec. split; reflexivity. Qed.

Lemma run_codes_frame w codes :
  (result_world (run_codes w codes)).(w_ctrl) = w.(w_ctrl)
  /\ (result_world (run_codes w codes)).(w_timers) = w.(w_timers).
Proof.
  revert w. induction codes as [|[c|] t IH]; intros w; cbn; [auto| |auto].
  destruct (handlers (w_ctrl w) !! c); cbn; [|auto].
  destruct (IH (run_handlers w c l)) as [E1 E2].
  destruct (run_handlers_frame w c l) as [F1 F2].
  rewrite E1, E2, F1, F2. auto.
Qed.

Lemma update_frame w :
  (result_world (update w)).(w_ctrl) = w.(w_ctrl)
  /\ (result_world (update w)).(w_timers) = w.(w_timers).
Proof.
  unfold update. destruct (Bool.eqb false _); [cbn; auto|].
  destruct (run_codes_frame w state_keycodes) as [E1 E2].
  destruct (run_codes w state_keycodes); cbn in *; auto.
Qed.

Lemma use_frame w k f :
  (result_world (use w k f)).(w_timers) = w.(w_timers)
  /\ (result_world (use w k f)).(w_ctrl).(forceUpdate) = w.(w_ctrl).(forceUpdate)
  /\ (result_world (use w k f)).(w_ctrl).(keyupTimeout) = w.(w_ctrl).(keyupTimeout).
Proof. unfold use. destruct (normalize_key k); cbn; auto. Qed.

Lemma timers_cleared w :
  timer_inv w -> (clearTimeout w w.(w_ctrl).(keyupTimeout)).(w_timers) = [].
Proof.
  intros [Ht | (i & d & Ht & Hk)]; rewrite ?Hk.
  - destruct (keyupTimeout (w_ctrl w)); cbn; rewrite ?Ht; reflexivity.
  - cbn. rewrite Ht. cbn. by rewrite Nat.eqb_refl.
Qed.

Lemma focused_with_ctrl w c : focused (with_ctrl w c) = focused w.
Proof. reflexivity. Qed.

Lemma onkeyup_focused w which :
  timer_inv w -> focused w = true ->
  (onkeyup w which).(w_ctrl).(forceUpdate) = true
  /\ (onkeyup w which).(w_timers) = [(w.(w_next), w.(w_scope).(controllerUpdateTimeout))]
  /\ (onkeyup w which).(w_ctrl).(keyupTimeout) = Some w.(w_next).
Proof.
  intros Hinv Hf. apply timers_cleared in Hinv.
  unfold onkeyup. rewrite focused_with_ctrl, Hf.
  cbn [with_ctrl w_ctrl set_forceUpdate set_keystate keyupTimeout].
  destruct (keyupTimeout (w_ctrl w)) eqn:Ek; cbn in Hinv |- *; rewrite ?Hinv; auto.
Qed.

Lemma onkeyup_scope w which : (onkeyup w which).(w_scope) = w.(w_scope).
Proof.
  unfold onkeyup. destruct (focused _); [|reflexivity].
  cbn [with_ctrl w_ctrl set_forceUpdate set_keystate keyupTimeout].
  destruct (keyupTimeout (w_ctrl w)); reflexivity.
Qed.

Lemma onkeyup_next w which :
  focused w = true -> (onkeyup w which).(w_next) = S w.(w_next).
Proof.
  intros Hf. unfold onkeyup. rewrite focused_with_ctrl, Hf.
  cbn [with_ctrl w_ctrl set_forceUpdate set_keystate keyupTimeout].
  destruct (keyupTimeout (w_ctrl w)); reflexivity.
Qed.

Lemma onkeyup_unfocused w which :
  focused w = false ->
  (onkeyup w which).(w_timers) = w.(w_timers)
  /\ (onkeyup w which).(w_ctrl).(forceUpdate) = w.(w_ctrl).(forceUpdate)
  /\ (onkeyup w which).(w_ctrl).(keyupTimeout) = w.(w_ctrl).(keyupTimeout).
Proof.
  intros Hf. unfold onkeyup. unfold focused in *. cbn. rewrite Hf. auto.
Qed.

Lemma pending_nil w i : w.(w_timers) = [] -> pending w i = false.
Proof. unfold pending. intros ->. reflexivity. Qed.

Lemma reset_timers w : timer_inv w -> (reset w).(w_timers) = [].
Proof.
  intros Hinv. apply timers_cleared in Hinv. unfold reset.
  destruct (keyupTimeout (w_ctrl w)); exact Hinv.
Qed.

Lemma step_timer_inv w l w' : timer_inv w -> step w l w' -> timer_inv w'.
Proof.
  intros Hinv Hs. destruct Hs as [w which|w which|w i Hp|w k f|w|w|w sc|w b].
  - left. destruct (onkeydown_frame w which) as (E & _).
    rewrite E. by apply timers_cleared.
  - destruct (focused w) eqn:Hf.
    + destruct (onkeyup_focused w which Hinv Hf) as (_ & E1 & E2).
      right. eauto.
    + destruct (onkeyup_unfocused w which Hf) as (E1 & _ & E2).
      unfold timer_inv. rewrite E1, E2. exact Hinv.
  - left. destruct Hinv as [Ht | (i' & d & Ht & Hk)].
    + by rewrite (pending_nil w i Ht) in Hp.
    + unfold pending in Hp. rewrite Ht in Hp. cbn in Hp.
      rewrite orb_false_r in Hp. unfold fire. cbn. rewrite Ht. cbn.
      by rewrite Hp.
  - destruct (use_frame w k f) as (E1 & _ & E2).
    unfold timer_inv. rewrite E1, E2. exact Hinv.
  - destruct (update_frame w) as (E1 & E2).
    unfold timer_inv. rewrite E1, E2. exact Hinv.
  - left. by apply reset_timers.
  - exact Hinv.
  - exact Hinv.
Qed.

Lemma steps_timer_inv w w' : timer_inv w -> steps w w' -> timer_inv w'.
Proof.
  intros Hinv Hs. induction Hs as [w|w l w1 w2 Hst Hs IH]; [exact Hinv|].
  apply IH. exact (step_timer_inv w l w1 Hinv Hst).
Qed.

Lemma KeyboardController_timers sc en fu ps w0 :
  KeyboardController sc en fu ps = Ret w0 -> timer_inv w0.
Proof.
  intros H. left.
  assert (E : w_timers (result_world (KeyboardController sc en fu ps)) = [])
    by reflexivity.
  rewrite H in E. exact E.
Qed.

Lemma quiet_step_preserves w l w' :
  w.(w_timers) = [] -> w.(w_ctrl).(forceUpdate) = true ->
  quiet w l -> step w l w' ->
  w'.(w_timers) = [] /\ w'.(w_ctrl).(forceUpdate) = true.
Proof.
  intros Ht Hf Hq Hs. destruct Hs as [w which|w which|w i Hp|w k f|w|w|w sc|w b];
    cbn in Hq.
  - destruct (onkeydown_frame w which) as (E1 & E2 & _).
    rewrite E1, E2. split; [|exact Hf].
    destruct (keyupTimeout (w_ctrl w)); cbn; rewrite Ht; reflexivity.
  - destruct (onkeyup_unfocused w which Hq) as (E1 & E2 & _).
    rewrite E1, E2. auto.
  - by rewrite (pending_nil w i Ht) in Hp.
  - destruct (use_frame w k f) as (E1 & E2 & _). rewrite E1, E2. auto.
  - destruct (update_frame w) as (E1 & E2). rewrite E1, E2. auto.
  - destruct Hq.
  - auto.
  - auto.
Qed.

Lemma quiet_steps_preserve w w' :
  quiet_steps w w' ->
  w.(w_timers) = [] -> w.(w_ctrl).(forceUpdate) = true ->
  w'.(w_timers) = [] /\ w'.(w_ctrl).(forceUpdate) = true.
Proof.
  induction 1 as [w|w l w1 w2 Hq Hs _ IH]; intros Ht Hf; [auto|].
  destruct (quiet_step_preserves w l w1 Ht Hf Hq Hs). by apply IH.
Qed.

(** ** C4 *)

(** C4: a key-up while focused sets [forceUpdate = true], cancels the
    pending release timer and schedules exactly one new timer, of delay
    [controllerUpdateTimeout], whose firing sets [forceUpdate = false]; a
    second focused key-up replaces it by one new timer; and from any world
    with at most one pending release timer (the one of [keyupTimeout]),
    every sequence of events keeps at most one pending. *)
Theorem keyup_release_timer (w : world) (which : Z)
  (Hinv : timer_inv w) (Hf : focused w = true) :
  (onkeyup w which).(w_ctrl).(forceUpdate) = true
  /\ (onkeyup w which).(w_timers) = [(w.(w_next), w.(w_scope).(controllerUpdateTimeout))]
  /\ (onkeyup w which).(w_ctrl).(keyupTimeout) = Some w.(w_next)
  /\ (fire (onkeyup w which) w.(w_next)).(w_ctrl).(forceUpdate) = false
  /\ (forall which', (onkeyup (onkeyup w which) which').(w_timers)
                     = [(S w.(w_next), w.(w_scope).(controllerUpdateTimeout))])
  /\ (forall w', steps w w' -> timer_inv w')
  /\ (forall sc en fu ps w0, KeyboardController sc en fu ps = Ret w0 -> timer_inv w0).
Proof.
  destruct (onkeyup_focused w which Hinv Hf) as (E1 & E2 & E3).
  assert (Hinv' : timer_inv (onkeyup w which)) by (right; eauto).
  assert (Hf' : focused (onkeyup w which) = true).
  { unfold focused. rewrite onkeyup_scope. exact Hf. }

  split; [exact E1|]. split; [exact E2|]. split; [exact E3|].
  split; [reflexivity|]. split.
  - intros which'. destruct (onkeyup_focused (onkeyup w which) which' Hinv' Hf')
      as (_ & G2 & _). rewrite G2, onkeyup_scope, onkeyup_next by exact Hf.
    reflexivity.
  - split; [intros w' Hs; exact (steps_timer_inv w w' Hinv Hs)|].
    exact KeyboardController_timers.
Qed.

Lemma keyup_release_timer_witness :
  timer_inv world0 /\ focused world0 = true /\
  (onkeyup world0 38).(w_ctrl).(forceUpdate) = true
  /\ (onkeyup world0 38).(w_timers)
     = [(world0.(w_next), world0.(w_scope).(controllerUpdateTimeout))]
  /\ (onkeyup world0 38).(w_ctrl).(keyupTimeout) = Some world0.(w_next)
  /\ (fire (onkeyup world0 38) world0.(w_next)).(w_ctrl).(forceUpdate) = false
  /\ (forall which', (onkeyup (onkeyup world0 38) which').(w_timers)
                     = [(S world0.(w_next), world0.(w_scope).(controllerUpdateTimeout))])
  /\ (forall w', steps world0 w' -> timer_inv w')
  /\ (forall sc en fu ps w0, KeyboardController sc en fu ps = Ret w0 -> timer_inv w0).
Proof.
  assert (Hinv : timer_inv world0) by (left; vm_compute; reflexivity).
  assert (Hf : focused world0 = true) by reflexivity.
  split; [exact Hinv|]. split; [exact Hf|].
  exact (keyup_release_timer world0 38 Hinv Hf).
Defined.

(** ** C10 *)

(** C10: every [onkeydown], whether the controller is disabled, the scene
    unfocused or the key unsupported or constrained, cancels the pending
    release timer and leaves [forceUpdate] as it was; so no release timer is
    pending afterwards, and if [forceUpdate] was true it stays true through
    any later events other than a focused key-up or [reset()]. *)
Theorem keydown_cancels_release (w : world) (which : Z) (Hinv : timer_inv w) :
  (onkeydown w which).(w_timers) = []
  /\ (forall i, pending (onkeydown w which) i = false)
  /\ (onkeydown w which).(w_ctrl).(forceUpdate) = w.(w_ctrl).(forceUpdate)
  /\ (w.(w_ctrl).(forceUpdate) = true ->
      forall w', quiet_steps (onkeydown w which) w' -> w'.(w_ctrl).(forceUpdate) = true).
Proof.
  destruct (onkeydown_frame w which) as (E1 & E2 & _).
  assert (Ht : (onkeydown w which).(w_timers) = []) by (rewrite E1; by apply timers_cleared).
  split; [exact Ht|]. split; [intros i; by apply pending_nil|].
  split; [exact E2|].
  intros Hf w' Hq. apply (quiet_steps_preserve _ _ Hq Ht). by rewrite E2.
Qed.

Definition world_window : world := onkeyup world0 38.

Lemma keydown_cancels_release_witness :
  timer_inv world_window /\ world_window.(w_ctrl).(forceUpdate) = true /\
  pending world_window 0 = true /\
  (onkeydown world_window 40).(w_timers) = []
  /\ (forall i, pending (onkeydown world_window 40) i = false)
  /\ (onkeydown world_window 40).(w_ctrl).(forceUpdate) = world_window.(w_ctrl).(forceUpdate)
  /\ (world_window.(w_ctrl).(forceUpdate) = true ->
      forall w', quiet_steps (onkeydown world_window 40) w' -> w'.(w_ctrl).(forceUpdate) = true).
Proof.
  assert (Hinv : timer_inv world_window)
    by (right; exists 0%nat, 300; split; vm_compute; reflexivity).
  split; [exact Hinv|]. split; [vm_compute; reflexivity|].
  split; [vm_compute; reflexivity|].
  exact (keydown_cancels_release world_window 40 Hinv).
Defined.

(** * Further properties of the controller *)

Lemma isKeydown_iff ks : isKeydown ks = true <-> exists k, ks !! k = Some true.
Proof.
  unfold isKeydown. rewrite existsb_exists. split.
  - intros ([k b] & Hin & Hb). cbn in Hb. destruct b; [|discriminate].
    exists k. apply elem_of_map_to_list. by apply list_elem_of_In.
  - intros [k Hk]. exists (k, true). split; [|reflexivity].
    apply list_elem_of_In. by apply elem_of_map_to_list.
Qed.

Lemma isKeydown_false ks :
  (forall k, ks !! k <> Some true) -> isKeydown ks = false.
Proof.
  intros H. destruct (isKeydown ks) eqn:E; [|reflexivity].
  apply isKeydown_iff in E as [k Hk]. by destruct (H k).
Qed.

Lemma onkeyup_keystate_eq w which :
  (onkeyup w which).(w_ctrl).(keystate) = <[which := false]> w.(w_ctrl).(keystate).
Proof.
  unfold onkeyup. cbn. destruct (focused _); cbn; [|reflexivity].
  destruct (keyupTimeout (w_ctrl w)); reflexivity.
Qed.

Lemma onkeydown_keystate_eq w which :
  (onkeydown w which).(w_ctrl).(keystate) =
    if isEnabled w.(w_ctrl) && focused w && in_supported which
         && negb (is_constrained w which)
    then <[which := true]> w.(w_ctrl).(keystate)
    else w.(w_ctrl).(keystate).
Proof. keydown_cases w which. Qed.

Lemma reset_ctrl w :
  (reset w).(w_ctrl) =
  set_keystate w.(w_ctrl) (fmap (fun _ => false) w.(w_ctrl).(keystate)).
Proof. unfold reset. destruct (keyupTimeout (w_ctrl w)); reflexivity. Qed.

(** [reset()] releases every key: no key is held afterwards, the keys seen
    so far stay recorded (as released), the handlers are kept, no release
    timer is left pending, and the next [update] does nothing. *)
Theorem reset_releases_all (w : world) :
  isKeydown (reset w).(w_ctrl).(keystate) = false
  /\ (forall k, is_Some ((reset w).(w_ctrl).(keystate) !! k)
                <-> is_Some (w.(w_ctrl).(keystate) !! k))
  /\ (reset w).(w_ctrl).(handlers) = w.(w_ctrl).(handlers)
  /\ (timer_inv w -> (reset w).(w_timers) = [])
  /\ update (reset w) = Ret (reset w).
Proof.
  assert (Hk : isKeydown (reset w).(w_ctrl).(keystate) = false).
  { apply isKeydown_false. intros k. rewrite reset_ctrl. cbn.
    rewrite lookup_fmap. destruct (keystate (w_ctrl w) !! k); cbn; congruence. }
  split; [exact Hk|]. split.
  { intros k. rewrite reset_ctrl. cbn. rewrite lookup_fmap.
    destruct (keystate (w_ctrl w) !! k); cbn; split; intros [? ?]; eauto; discriminate. }
  split; [rewrite reset_ctrl; reflexivity|].
  split; [apply reset_timers|].
  unfold update. rewrite Hk. reflexivity.
Qed.

(** [keyname] and the [keycode] lookup agree on the supported keys: each
    supported name resolves to a code whose [keyname] is that name; and for
    any code, a name returned by [keyname] maps back to that code in the
    exported [keycodes] table. *)
Theorem keyname_roundtrip :
  (forall n, In n keynames -> exists c, keycode n = Some c /\ keyname c = Some n)
  /\ (forall c n, keyname c = Some n -> assoc_str n keycodes = Some c).
Proof.
  split.
  - intros n Hn. cbn in Hn.
    destruct Hn as [<-|[<-|[<-|[<-|[]]]]]; eexists; split; reflexivity.
  - intros c n. unfold keyname. cbn.
    destruct (Z.eqb_spec c 27) as [->|]; [intros [= <-]; reflexivity|].
    destruct (Z.eqb_spec c 32) as [->|]; [intros [= <-]; reflexivity|].
    destruct (Z.eqb_spec c 37) as [->|]; [intros [= <-]; reflexivity|].
    destruct (Z.eqb_spec c 38) as [->|]; [intros [= <-]; reflexivity|].
    destruct (Z.eqb_spec c 39) as [->|]; [intros [= <-]; reflexivity|].
    destruct (Z.eqb_spec c 40) as [->|]; [intros [= <-]; reflexivity|].
    discriminate.
Qed.

(** Releasing the last held key makes the next [update] a no-op: no handler
    runs and the world is unchanged. *)
Theorem release_last_key_idle (w : world) (which : Z)
  (Hlast : forall k, k <> which -> w.(w_ctrl).(keystate) !! k <> Some true) :
  update (onkeyup w which) = Ret (onkeyup w which).
Proof.
  unfold update. rewrite isKeydown_false; [reflexivity|].
  intros k. rewrite onkeyup_keystate_eq.
  destruct (decide (k = which)) as [->|Hne].
  - rewrite lookup_insert_eq. discriminate.
  - rewrite lookup_insert_ne by congruence. by apply Hlast.
Qed.

Definition world_up_held : world := onkeydown world0 38.

Lemma release_last_key_idle_witness :
  (forall k, k <> 38 -> world_up_held.(w_ctrl).(keystate) !! k <> Some true)
  /\ update (onkeyup world_up_held 38) = Ret (onkeyup world_up_held 38).
Proof.
  assert (H : forall k, k <> 38 -> world_up_held.(w_ctrl).(keystate) !! k <> Some true).
  { intros k Hk.
    assert (E : world_up_held.(w_ctrl).(keystate) = {[38 := true]})
      by (vm_compute; reflexivity).
    rewrite E, lookup_singleton_ne by congruence. discriminate. }
  split; [exact H|]. exact (release_last_key_idle world_up_held 38 H).
Defined.

Lemma run_codes_missing codes w c :
  In (Some c) codes -> w.(w_ctrl).(handlers) !! c = None ->
  exists w', run_codes w codes = Throw "TypeError" w' /\ w'.(w_ctrl) = w.(w_ctrl).
Proof.
  revert w. induction codes as [|[c'|] t IH]; intros w Hin Hm; cbn in Hin |- *.
  - destruct Hin.
  - destruct (handlers (w_ctrl w) !! c') as [hs|] eqn:Ec'; [|eauto].
    destruct Hin as [[= ->]|Hin]; [congruence|].
    destruct (run_handlers_frame w c' hs) as [F1 _].
    destruct (IH (run_handlers w c' hs)) as (w' & E & Ew'); [exact Hin|rewrite F1; exact Hm|].
    exists w'. rewrite E, Ew', F1. auto.
  - eauto.
Qed.

(** If some key is held and one of the supported codes has no handler
    list, [update] throws a TypeError ([handlers[code].forEach] on
    [undefined]), without changing the controller state. *)
Theorem update_missing_handlers_throws (w : world) (c : Z)
  (Hk : isKeydown w.(w_ctrl).(keystate) = true)
  (Hc : In (Some c) state_keycodes)
  (Hm : w.(w_ctrl).(handlers) !! c = None) :
  exists w', update w = Throw "TypeError" w' /\ w'.(w_ctrl) = w.(w_ctrl).
Proof.
  unfold update. rewrite Hk. cbn [Bool.eqb negb].
  destruct (run_codes_missing state_keycodes w c Hc Hm) as (w' & E & Ew').
  rewrite E. eauto.
Qed.

Definition world_no_down : world :=
  with_ctrl world_up_held
    (set_handlers world_up_held.(w_ctrl) (delete 40 world_up_held.(w_ctrl).(handlers))).

Lemma update_missing_handlers_throws_witness :
  isKeydown world_no_down.(w_ctrl).(keystate) = true
  /\ In (Some 40) state_keycodes
  /\ world_no_down.(w_ctrl).(handlers) !! 40 = None
  /\ exists w', update world_no_down = Throw "TypeError" w'
                /\ w'.(w_ctrl) = world_no_down.(w_ctrl).
Proof.
  assert (H1 : isKeydown world_no_down.(w_ctrl).(keystate) = true)
    by (vm_compute; reflexivity).
  assert (H2 : In (Some 40) state_keycodes) by (cbn; tauto).
  assert (H3 : world_no_down.(w_ctrl).(handlers) !! 40 = None)
    by (vm_compute; reflexivity).
  split; [exact H1|]. split; [exact H2|]. split; [exact H3|].
  exact (update_missing_handlers_throws world_no_down 40 H1 H2 H3).
Defined.

(** Whatever [update] does, it leaves the controller state (key state,
    handlers, pan speed, [forceUpdate], the release timer) and the pending
    timers as they were. *)
Theorem update_keeps_state (w : world) :
  (result_world (update w)).(w_ctrl) = w.(w_ctrl)
  /\ (result_world (update w)).(w_timers) = w.(w_timers)
  /\ (result_world (update w)).(w_scope) = w.(w_scope).
Proof.
  destruct (update_frame w) as [E1 E2]. split; [exact E1|]. split; [exact E2|].
  assert (Hs : forall w0 codes,
             (result_world (run_codes w0 codes)).(w_scope) = w0.(w_scope)).
  { intros w0 codes. revert w0. induction codes as [|[c|] t IH]; intros w0; cbn; [auto| |auto].
    destruct (handlers (w_ctrl w0) !! c); cbn; [|auto].
    rewrite IH, run_handlers_spec. reflexivity. }
  unfold update. destruct (Bool.eqb false _); [reflexivity|].
  specialize (Hs w state_keycodes).
  destruct (run_codes w state_keycodes); exact Hs.
Qed.

(** The constructor never throws: it returns a controller with one handler
    for each of up, down, left and right and no other, no key recorded, no
    timer pending, the base reset as only output, and the given enabled
    flag, [forceUpdate] and pan speed. *)
Theorem constructor_state (sc : scope) (en fu : bool) (ps : Q) :
  exists w0, KeyboardController sc en fu ps = Ret w0
  /\ w0.(w_ctrl).(handlers) = {[38 := [HUp]; 40 := [HDown]; 37 := [HLeft]; 39 := [HRight]]}
  /\ w0.(w_ctrl).(keystate) = ∅
  /\ w0.(w_timers) = []
  /\ w0.(w_out) = [BaseReset]
  /\ w0.(w_ctrl).(isEnabled) = en
  /\ w0.(w_ctrl).(forceUpdate) = fu
  /\ w0.(w_ctrl).(panSpeed) = ps
  /\ w0.(w_scope) = sc.
Proof.
  eexists. split; [reflexivity|].
  split; [vm_compute; reflexivity|].
  repeat split; reflexivity.
Qed.

(** With the constructor's handlers, a tick where some key is held pans
    once for each held direction, in the order up, down, left, right, then
    runs the base update; keys held but outside the four directions add
    nothing. *)
Theorem update_default_dispatch (w : world)
  (Hh : w.(w_ctrl).(handlers) = default_handlers)
  (Hk : isKeydown w.(w_ctrl).(keystate) = true) :
  let s := w.(w_ctrl).(panSpeed) in
  update w = Ret (push_out w (
    (if held w 38 then [Pan (mkDelta 0 (- s / 2))] else []) ++
    (if held w 40 then [Pan (mkDelta 0 (s / 2))] else []) ++
    (if held w 37 then [Pan (mkDelta (- s * 2) 0)] else []) ++
    (if held w 39 then [Pan (mkDelta (s * 2) 0)] else []) ++ [BaseUpdate])).
Proof.
  intros s. rewrite update_spec; [|exact Hk|].
  - unfold code_effects. rewrite Hh. cbn [concat map]. rewrite <- !app_assoc.
    unfold s. cbn [default_handlers].
    destruct (held w 38), (held w 40), (held w 37), (held w 39); reflexivity.
  - rewrite Hh, state_keycodes_values. intros c' Hc'.
    cbn in Hc'. destruct Hc' as [E|[E|[E|[E|[]]]]]; injection E as <-;
    vm_compute; eauto.
Qed.

Lemma update_default_dispatch_witness :
  world_up_held.(w_ctrl).(handlers) = default_handlers
  /\ isKeydown world_up_held.(w_ctrl).(keystate) = true
  /\ let s := world_up_held.(w_ctrl).(panSpeed) in
  update world_up_held = Ret (push_out world_up_held (
    (if held world_up_held 38 then [Pan (mkDelta 0 (- s / 2))] else []) ++
    (if held world_up_held 40 then [Pan (mkDelta 0 (s / 2))] else []) ++
    (if held world_up_held 37 then [Pan (mkDelta (- s * 2) 0)] else []) ++
    (if held world_up_held 39 then [Pan (mkDelta (s * 2) 0)] else []) ++ [BaseUpdate])).
Proof.
  assert (H1 : world_up_held.(w_ctrl).(handlers) = default_handlers)
    by (vm_compute; reflexivity).
  assert (H2 : isKeydown world_up_held.(w_ctrl).(keystate) = true)
    by (vm_compute; reflexivity).
  split; [exact H1|]. split; [exact H2|].
  exact (update_default_dispatch world_up_held H1 H2).
Defined.

(** Every held key is one of the supported codes. *)
Definition held_supported (w : world) : Prop :=
  forall k, w.(w_ctrl).(keystate) !! k = Some true -> in_supported k = true.

Lemma step_held_supported w l w' :
  held_supported w -> step w l w' -> held_supported w'.
Proof.
  unfold held_supported. intros Hinv Hs.
  destruct Hs as [w which|w which|w i Hp|w k f|w|w|w sc|w b]; intros k' Hk'.
  - rewrite onkeydown_keystate_eq in Hk'.
    destruct (isEnabled (w_ctrl w) && focused w && in_supported which
              && negb (is_constrained w which)) eqn:E; [|by apply Hinv].
    destruct (decide (k' = which)) as [->|Hne].
    + apply andb_true_iff in E as [E _]. apply andb_true_iff in E as [_ E]. exact E.
    + rewrite lookup_insert_ne in Hk' by congruence. by apply Hinv.
  - rewrite onkeyup_keystate_eq in Hk'.
    destruct (decide (k' = which)) as [->|Hne].
    + rewrite lookup_insert_eq in Hk'. discriminate.
    + rewrite lookup_insert_ne in Hk' by congruence. by apply Hinv.
  - by apply Hinv.
  - apply Hinv. unfold use in Hk'. destruct (normalize_key k); exact Hk'.
  - apply Hinv. destruct (update_frame w) as [E _]. by rewrite E in Hk'.
  - rewrite reset_ctrl in Hk'. cbn in Hk'. rewrite lookup_fmap in Hk'.
    destruct (keystate (w_ctrl w) !! k'); discriminate.
  - by apply Hinv.
  - by apply Hinv.
Qed.

(** From a world where only supported keys are held (such as a freshly
    constructed controller, which holds none), no sequence of events ever
    makes an unsupported key held. *)
Theorem held_keys_supported (w w' : world)
  (Hinv : held_supported w) (Hs : steps w w') :
  held_supported w'.
Proof.
  induction Hs as [w|w l w1 w2 Hst Hs IH]; [exact Hinv|].
  apply IH. exact (step_held_supported w l w1 Hinv Hst).
Qed.

Lemma held_keys_supported_witness :
  held_supported world0 /\ held_supported (onkeydown (onkeydown world0 65) 38).
Proof.
  assert (H : held_supported world0).
  { intros k Hk. assert (E : world0.(w_ctrl).(keystate) = ∅) by reflexivity.
    rewrite E, lookup_empty in Hk. discriminate. }
  split; [exact H|].
  apply (held_keys_supported world0 _ H).
  eapply steps_cons; [apply StKeyDown|].
  eapply steps_cons; [apply StKeyDown|]. apply steps_refl.
Defined.

Lemma run_handlers_with_scope w sc c hs :
  run_handlers (with_scope w sc) c hs = with_scope (run_handlers w c hs) sc.
Proof. rewrite !run_handlers_spec. reflexivity. Qed.

Lemma run_codes_with_scope w sc codes :
  run_codes (with_scope w sc) codes =
  match run_codes w codes with
  | Ret w' => Ret (with_scope w' sc)
  | Throw e w' => Throw e (with_scope w' sc)
  end.
Proof.
  revert w. induction codes as [|[c|] t IH]; intros w; cbn; [reflexivity| |reflexivity].
  destruct (handlers (w_ctrl w) !! c); [|reflexivity].
  rewrite run_handlers_with_scope. apply IH.
Qed.

(** [update] never reads the scope: focus and constraints play no part in a
    tick, so a key that is held keeps being dispatched even after the scope
    starts constraining it or loses focus. *)
Theorem update_ignores_scope (w : world) (sc : scope) :
  update (with_scope w sc) =
  match update w with
  | Ret w' => Ret (with_scope w' sc)
  | Throw e w' => Throw e (with_scope w' sc)
  end.
Proof.
  unfold update. cbn [with_scope w_ctrl].
  destruct (Bool.eqb false _); [reflexivity|].
  change (mkWorld (w_ctrl w) sc (w_timers w) (w_next w) (w_out w)) with (with_scope w sc).
  rewrite run_codes_with_scope.
  destruct (run_codes w state_keycodes); reflexivity.
Qed.
